(** * Health-check status aggregation: a shallow embedding of
      [pkg/healthcheck/handler.go] and the properties of its aggregation
      engine, its atomic status cell and its HTTP probe mapping.

    Conventions of the embedding:
    - Go's [Status] ([type Status int]) is an integer: any [Z] may be a
      [Status]; the four named constants are [Unavailable], [Ready],
      [Broken], [Fail].  The cell [hc.state] is an [int32]; the conversion
      [int32(state)] is written out as a wrap-around.
    - Go's [Component] ([type Component uint32]) is an [N].
    - Go maps ([map[Status]int], [map[Component]Status]) are [gmap]s; reading
      a missing key yields the zero value, see [map_index].
    - [*HealthCheck] methods take the receiver as a value and return the
      updated receiver (explicit state passing).  Calls on [hc.logger] are
      recorded, in order, in the field [logged].
    - The channel [hc.receptor] is a bounded FIFO buffer with a closed flag;
      a nil channel is [None]. *)

From Stdlib Require Import ZArith NArith Lia.
From stdpp Require Import gmap strings list fin_maps pretty.

Local Open Scope Z_scope.

(** ** Status *)

Module Status.

(** [const ( Unavailable Status = iota; Ready; Broken; Fail )] *)
Definition Unavailable : Z := 0.
Definition Ready : Z := 1.
Definition Broken : Z := 2.
Definition Fail : Z := 3.

(** [func (s Status) String() string]: a [switch] with three named cases
    and a [default]. *)
Definition String (s : Z) : string :=
  if s =? Unavailable then "unavailable"%string
  else if s =? Ready then "ready"%string
  else if s =? Broken then "broken"%string
  else "unknown"%string.

(** The members of the enumeration. *)
Definition defined (s : Z) : Prop :=
  s = Unavailable \/ s = Ready \/ s = Broken \/ s = Fail.

End Status.

Abbreviation Unavailable := Status.Unavailable.
Abbreviation Ready := Status.Ready.
Abbreviation Broken := Status.Broken.
Abbreviation Fail := Status.Fail.

(** ** Component *)

Module Component.

Definition Default : N := 0.
Definition Init : N := 1.
Definition Storage : N := 2.
Definition ArchiveStorage : N := 3.
Definition SamplingStorage : N := 4.

(** [func (c Component) String() string] *)
Definition String (c : N) : string :=
  if (c =? Init)%N then "initialization"%string
  else if (c =? Storage)%N then "storage"%string
  else if (c =? ArchiveStorage)%N then "archive-storage"%string
  else if (c =? SamplingStorage)%N then "sampling-strategy-storage"%string
  else "unknown"%string.

End Component.

(** ** Machine integers and Go maps *)

(** The conversion [int32(x)] of a Go [int]: reduction modulo [2^32] into
    the signed range. *)
Definition int32 (x : Z) : Z := (x + 2 ^ 31) mod 2 ^ 32 - 2 ^ 31.

Definition in_int32 (x : Z) : Prop := - 2 ^ 31 <= x < 2 ^ 31.

(** [m[k]] on a Go map whose values are integers: the stored value, or the
    zero value when [k] is absent.  Reading never inserts. *)
Definition map_index `{Countable K} (m : gmap K Z) (k : K) : Z :=
  match m !! k with
  | Some v => v
  | None => 0
  end.

(** ** Messages, channels and log records *)

(** [type ComponentStatus struct { comp Component; stat Status }] *)
Record ComponentStatus := mkComponentStatus {
  comp : N;
  stat : Z
}.

(** A channel of [ComponentStatus]: [cap] is the buffer size given to
    [make], [buf] the messages sent and not yet received (oldest first). *)
Record Chan := mkChan {
  cap : nat;
  buf : list ComponentStatus;
  closed : bool
}.

Inductive SendResult :=
| Sent (ch : Chan)
| SendBlocks
| SendPanics.

(** [ch <- msg]: sending on a closed channel panics; a send proceeds when
    the buffer has room and otherwise parks the sender until the consumer
    receives. *)
Definition chan_send (ch : Chan) (msg : ComponentStatus) : SendResult :=
  if closed ch then SendPanics
  else if (length (buf ch) <? cap ch)%nat
       then Sent (mkChan (cap ch) (buf ch ++ [msg]) (closed ch))
       else SendBlocks.

Inductive Level := InfoLevel | WarnLevel | ErrorLevel.

(** One call on [hc.logger]: level, message and the rendered
    [zap.Stringer] fields. *)
Record LogEntry := mkLogEntry {
  level : Level;
  message : string;
  fields : list (string * string)
}.

(** [*zap.Logger]: the no-op logger of [zap.NewNop()], or one supplied by
    the caller. *)
Inductive ZapLogger :=
| NewNop
| CallerLogger (id : nat).

(** ** HealthCheck *)

(** [type HealthCheck struct]; the field [server] belongs to the HTTP
    plumbing and is left out.  [logged] is the record of the calls made on
    [logger]. *)
Record HealthCheck := mkHealthCheck {
  state : Z;
  logger : option ZapLogger;
  mapping : gmap Z Z;
  comstat : gmap N Z;
  desired : list N;
  receptor : option Chan;
  logged : list LogEntry
}.

Definition with_state (s : Z) (hc : HealthCheck) : HealthCheck :=
  mkHealthCheck s (logger hc) (mapping hc) (comstat hc) (desired hc)
                (receptor hc) (logged hc).

Definition with_logger (l : option ZapLogger) (hc : HealthCheck) : HealthCheck :=
  mkHealthCheck (state hc) l (mapping hc) (comstat hc) (desired hc)
                (receptor hc) (logged hc).

Definition with_comstat (m : gmap N Z) (hc : HealthCheck) : HealthCheck :=
  mkHealthCheck (state hc) (logger hc) (mapping hc) m (desired hc)
                (receptor hc) (logged hc).

Definition with_desired (cs : list N) (hc : HealthCheck) : HealthCheck :=
  mkHealthCheck (state hc) (logger hc) (mapping hc) (comstat hc) cs
                (receptor hc) (logged hc).

Definition with_receptor (r : option Chan) (hc : HealthCheck) : HealthCheck :=
  mkHealthCheck (state hc) (logger hc) (mapping hc) (comstat hc) (desired hc)
                r (logged hc).

(** A call [hc.logger.<Level>(msg, fields...)]. *)
Definition log (lv : Level) (msg : string) (fs : list (string * string))
    (hc : HealthCheck) : HealthCheck :=
  mkHealthCheck (state hc) (logger hc) (mapping hc) (comstat hc) (desired hc)
                (receptor hc) (logged hc ++ [mkLogEntry lv msg fs]).

(** [type Option], a function on a pointer to [HealthCheck]. *)
Definition Option := HealthCheck -> HealthCheck.

(** [func Logger(logger *zap.Logger) Option] *)
Definition Logger (l : option ZapLogger) : Option :=
  fun hc => with_logger l hc.

(** [func SetDesired(cs []Component) Option] *)
Definition SetDesired (cs : list N) : Option :=
  fun hc => with_desired cs hc.

(** [func SetReceptor(rec chan ComponentStatus) Option] *)
Definition SetReceptor (rec : option Chan) : Option :=
  fun hc => with_receptor rec hc.

(** The options the package exports. *)
Inductive exported : Option -> Prop :=
| exported_Logger l : exported (Logger l)
| exported_SetDesired cs : exported (SetDesired cs)
| exported_SetReceptor rec : exported (SetReceptor rec).

(** [http.StatusServiceUnavailable] and [http.StatusNoContent]. *)
Definition StatusServiceUnavailable : Z := 503.
Definition StatusNoContent : Z := 204.

(** The literal [map[Status]int{...}] of [New]. *)
Definition initial_mapping : gmap Z Z :=
  <[Ready := StatusNoContent]>
    (<[Unavailable := StatusServiceUnavailable]> ∅).

(** [func New(state Status, options ...Option) *HealthCheck].  The engine
    started by [go hc.monitor()] is run explicitly, see [monitor]. *)
Definition New (st : Z) (options : list Option) : HealthCheck :=
  let hc0 := mkHealthCheck (int32 st) None initial_mapping ∅ [] None [] in
  let hc1 := fold_left (fun hc option => option hc) options hc0 in
  let hc2 := match logger hc1 with
             | None => with_logger (Some NewNop) hc1
             | Some _ => hc1
             end in
  with_comstat ∅ hc2.

(** [func (hc *HealthCheck) Get() Status]: [Status(atomic.LoadInt32(&hc.state))]. *)
Definition Get (hc : HealthCheck) : Z := state hc.

(** [func (hc *HealthCheck) Set(state Status)] ([Set] is reserved, hence
    the underscore): the atomic store of [int32(state)], then the log call
    with the status read back by [hc.Get()]. *)
Definition Set_ (st : Z) (hc : HealthCheck) : HealthCheck :=
  let hc' := with_state (int32 st) hc in
  log InfoLevel "Health Check state change"
      [("status"%string, Status.String (Get hc'))] hc'.

(** [func (hc *HealthCheck) Ready()] *)
Definition Ready_ (hc : HealthCheck) : HealthCheck := Set_ Ready hc.

(** The [for _, c := range hc.desired] loop of [checkComponent]: [ok]
    starts as [true]; the first entry different from [Ready] clears it and
    breaks. *)
Fixpoint scan_desired (cs : gmap N Z) (ds : list N) (ok : bool) : bool :=
  match ds with
  | [] => ok
  | c :: ds' =>
      if map_index cs c =? Ready then scan_desired cs ds' ok else false
  end.

(** [func (hc *HealthCheck) checkComponent()] *)
Definition checkComponent (hc : HealthCheck) : HealthCheck :=
  let ok := scan_desired (comstat hc) (desired hc) true in
  if ok then Set_ Ready hc else Set_ Unavailable hc.

(** The body of the [for msg := range hc.receptor] loop of [monitor]. *)
Definition monitor_body (msg : ComponentStatus) (hc : HealthCheck) : HealthCheck :=
  let hc1 := log InfoLevel "Component health state change"
                 [("component"%string, Component.String (comp msg));
                  ("state"%string, Status.String (stat msg))] hc in
  let hc2 := with_comstat (<[comp msg := stat msg]> (comstat hc1)) hc1 in
  checkComponent hc2.

(** The engine on a sequence of received messages, oldest first. *)
Fixpoint process (msgs : list ComponentStatus) (hc : HealthCheck) : HealthCheck :=
  match msgs with
  | [] => hc
  | msg :: rest => process rest (monitor_body msg hc)
  end.

Inductive LoopStatus :=
| Exited        (* the channel was closed and drained *)
| Receiving.    (* parked on the receive *)

(** [func (hc *HealthCheck) monitor()]: receives what the channel holds; the
    loop ends once the channel is closed and empty, and a nil channel parks
    the loop for ever. *)
Definition monitor (hc : HealthCheck) : HealthCheck * LoopStatus :=
  match receptor hc with
  | None => (hc, Receiving)
  | Some ch =>
      let hc' := with_receptor (Some (mkChan (cap ch) [] (closed ch))) hc in
      (process (buf ch) hc', if closed ch then Exited else Receiving)
  end.

Inductive Outcome :=
| Returned (hc : HealthCheck)
| Blocked (hc : HealthCheck)
| Panicked.

(** [func (hc *HealthCheck) GetStatusReporter(c Component) func(Status)]: the
    closure reads [hc.receptor] when it is invoked. *)
Definition GetStatusReporter (c : N) : Z -> HealthCheck -> Outcome :=
  fun st hc =>
    match receptor hc with
    | None =>
        Returned (log WarnLevel "No channel for component status report" [] hc)
    | Some ch =>
        match chan_send ch (mkComponentStatus c st) with
        | Sent ch' => Returned (with_receptor (Some ch') hc)
        | SendBlocks => Blocked hc
        | SendPanics => Panicked
        end
    end.

(** [func GetNullStatusReporter() func(Status)] *)
Definition GetNullStatusReporter : Z -> HealthCheck -> Outcome :=
  fun _ hc => Returned hc.

(** What the handler registered on ["/"] hands to the [ResponseWriter]: the
    argument of [WriteHeader] and the bytes given to [Write]. *)
Record Response := mkResponse {
  statusCode : Z;
  written : string
}.

(** The handler function of [httpHandler]. *)
Definition httpHandler (hc : HealthCheck) : Response :=
  mkResponse (map_index (mapping hc) (Get hc)) "Server not available".

(** ** The specification's reading of the engine *)

(** Following the words of the specification: "every desired component's
    current table entry equals Ready". *)
Definition all_desired_ready (ds : list N) (tbl : gmap N Z) : Prop :=
  Forall (fun c => tbl !! c = Some Ready) ds.

(** Following the words of the specification: the aggregate of a desired
    set and a table is Ready when every desired entry equals Ready and
    Unavailable otherwise. *)
Definition aggregate (ds : list N) (tbl : gmap N Z) : Z :=
  if decide (all_desired_ready ds tbl) then Ready else Unavailable.

(** Following the words of the specification: on each event, (1) upsert the
    table entry of the event's component, (2) recompute the aggregate from
    the desired set and the updated table. *)
Definition spec_on_event (ds : list N) (tbl : gmap N Z) (msg : ComponentStatus)
    : gmap N Z * Z :=
  let tbl' := <[comp msg := stat msg]> tbl in
  (tbl', aggregate ds tbl').

(** Following the words of the specification: the fixed mapping table
    "Unavailable to 503, Ready to 204, all others to a configured
    default". *)
Definition spec_transport_code (dflt : Z) (s : Z) : Z :=
  if s =? Unavailable then 503
  else if s =? Ready then 204
  else dflt.

(** A status code of HTTP is a three-digit number; [WriteHeader] accepts
    nothing else. *)
Definition http_status_code (c : Z) : Prop := 100 <= c <= 999.

(** ** Runs and reachable states *)

(** A sequence of [Set] calls, first call first. *)
Definition set_all (sts : list Z) (hc : HealthCheck) : HealthCheck :=
  fold_left (fun h s => Set_ s h) sts hc.

(** The states a [HealthCheck] goes through: built by [New] from exported
    options, then changed by [Set], by the engine and by reporters. *)
Inductive reachable : HealthCheck -> Prop :=
| reachable_New st options :
    Forall exported options -> reachable (New st options)
| reachable_Set st hc :
    reachable hc -> reachable (Set_ st hc)
| reachable_monitor_body msg hc :
    reachable hc -> reachable (monitor_body msg hc)
| reachable_monitor hc :
    reachable hc -> reachable (fst (monitor hc))
| reachable_report c st hc hc' :
    reachable hc -> GetStatusReporter c st hc = Returned hc' -> reachable hc'.

(** Two reports of the same component that may differ in the status only
    when the component is not desired. *)
Definition same_desired_report (ds : list N) (m1 m2 : ComponentStatus) : Prop :=
  comp m1 = comp m2 /\ (comp m1 ∈ ds -> stat m1 = stat m2).

(** The reports of desired components in a sequence of messages. *)
Definition desired_reports (ds : list N) (msgs : list ComponentStatus)
    : list ComponentStatus :=
  filter (fun m => comp m ∈ ds) msgs.

(** Two tables with the same entries for the desired components. *)
Definition agree_on (ds : list N) (t1 t2 : gmap N Z) : Prop :=
  forall c, c ∈ ds -> t1 !! c = t2 !! c.

(** The warning of a reporter that has no channel. *)
Definition no_channel_warning : LogEntry :=
  mkLogEntry WarnLevel "No channel for component status report" [].

(** ** Serving, runs of reports and single operations *)

(** [strconv.Itoa]: the decimal rendering of an integer. *)
Definition Itoa (i : Z) : string := pretty i.

(** [func (hc *HealthCheck) Serve(port int)], which returns a pointer to
    [HealthCheck] and an error, with
    [net.Listen("tcp", portStr)] taken as the function [listen] from the
    address to the error it returns, if any.  The result is the receiver
    after the call and the returned error; the returned pointer is nil
    exactly when the error is not.  The server started by
    [serveWithListener] is run explicitly, see [serve_goroutine]. *)
Definition Serve (listen : string -> option string) (port : Z) (hc : HealthCheck)
    : HealthCheck * option string :=
  let portStr := (":" ++ Itoa port)%string in
  match listen portStr with
  | Some err =>
      (log ErrorLevel "Health Check server failed to listen"
           [("error"%string, err)] hc, Some err)
  | None =>
      (log InfoLevel "Health Check server started"
           [("http-port"%string, Itoa port);
            ("status"%string, Status.String (Get hc))] hc, None)
  end.

(** The goroutine of [serveWithListener]: [err] is what [hc.server.Serve(l)]
    returned when it came back. *)
Definition serve_goroutine (err : option string) (hc : HealthCheck) : HealthCheck :=
  match err with
  | Some e => Set_ Broken (log ErrorLevel "failed to serve" [("error"%string, e)] hc)
  | None => hc
  end.

(** The reporters of the messages' components called one after the other,
    each with the message's status; the run stops at the first call that
    does not return. *)
Fixpoint report_all (msgs : list ComponentStatus) (hc : HealthCheck) : Outcome :=
  match msgs with
  | [] => Returned hc
  | m :: rest =>
      match GetStatusReporter (comp m) (stat m) hc with
      | Returned hc' => report_all rest hc'
      | Blocked hc' => Blocked hc'
      | Panicked => Panicked
      end
  end.

(** The status a component reported last in a sequence of messages. *)
Fixpoint last_report (c : N) (msgs : list ComponentStatus) : option Z :=
  match msgs with
  | [] => None
  | m :: rest =>
      match last_report c rest with
      | Some s => Some s
      | None => if decide (comp m = c) then Some (stat m) else None
      end
  end.

(** The table after a sequence of upserts. *)
Definition upsert_all (msgs : list ComponentStatus) (tbl : gmap N Z) : gmap N Z :=
  fold_left (fun t m => <[comp m := stat m]> t) msgs tbl.

(** One operation of the package on a [HealthCheck]. *)
Inductive step : HealthCheck -> HealthCheck -> Prop :=
| step_Set st hc : step hc (Set_ st hc)
| step_Ready hc : step hc (Ready_ hc)
| step_monitor hc : step hc (fst (monitor hc))
| step_report c st hc hc' :
    GetStatusReporter c st hc = Returned hc' -> step hc hc'
| step_null_report st hc hc' :
    GetNullStatusReporter st hc = Returned hc' -> step hc hc'
| step_Serve listen port hc : step hc (fst (Serve listen port hc))
| step_serve_goroutine err hc : step hc (serve_goroutine err hc).

(** The two log records of one engine event. *)
Definition event_log (msg : ComponentStatus) (overall : Z) : list LogEntry :=
  [mkLogEntry InfoLevel "Component health state change"
     [("component"%string, Component.String (comp msg));
      ("state"%string, Status.String (stat msg))];
   mkLogEntry InfoLevel "Health Check state change"
     [("status"%string, Status.String overall)]].

(** ** Basic facts *)

Lemma int32_in_range x : in_int32 x -> int32 x = x.
Proof.
  unfold in_int32, int32. intros Hx.
  rewrite Z.mod_small by lia. lia.
Qed.

Lemma int32_range x : in_int32 (int32 x).
Proof.
  unfold in_int32, int32.
  pose proof (Z.mod_pos_bound (x + 2 ^ 31) (2 ^ 32)). lia.
Qed.

Lemma defined_in_int32 s : Status.defined s -> in_int32 s.
Proof.
  unfold Status.defined, in_int32. intros [-> | [-> | [-> | ->]]]; cbv; intuition congruence.
Qed.

Lemma map_index_Ready (tbl : gmap N Z) c :
  map_index tbl c = Ready <-> tbl !! c = Some Ready.
Proof.
  unfold map_index. destruct (tbl !! c) as [v|]; split; intros Hv;
    try congruence; discriminate.
Qed.

Section Fields.

Variables (st : Z) (hc : HealthCheck).

Lemma Get_Set : Get (Set_ st hc) = int32 st.
Proof. reflexivity. Qed.

Lemma comstat_Set : comstat (Set_ st hc) = comstat hc.
Proof. reflexivity. Qed.

Lemma desired_Set : desired (Set_ st hc) = desired hc.
Proof. reflexivity. Qed.

Lemma mapping_Set : mapping (Set_ st hc) = mapping hc.
Proof. reflexivity. Qed.

Lemma receptor_Set : receptor (Set_ st hc) = receptor hc.
Proof. reflexivity. Qed.

Lemma comstat_checkComponent : comstat (checkComponent hc) = comstat hc.
Proof. unfold checkComponent. by destruct (scan_desired _ _ _). Qed.

Lemma desired_checkComponent : desired (checkComponent hc) = desired hc.
Proof. unfold checkComponent. by destruct (scan_desired _ _ _). Qed.

Lemma mapping_checkComponent : mapping (checkComponent hc) = mapping hc.
Proof. unfold checkComponent. by destruct (scan_desired _ _ _). Qed.

Lemma receptor_checkComponent : receptor (checkComponent hc) = receptor hc.
Proof. unfold checkComponent. by destruct (scan_desired _ _ _). Qed.

End Fields.

(** The loop with [break] computes the universally quantified test. *)
Lemma scan_desired_false cs ds : scan_desired cs ds false = false.
Proof. induction ds as [|c ds IH]; simpl; [done|]. by destruct (_ =? _). Qed.

Lemma scan_desired_true cs ds :
  scan_desired cs ds true = true <-> all_desired_ready ds cs.
Proof.
  unfold all_desired_ready. induction ds as [|c ds IH]; simpl.
  - split; [constructor | done].
  - destruct (map_index cs c =? Ready) eqn:E.
    + apply Z.eqb_eq, map_index_Ready in E. rewrite IH. split.
      * by constructor.
      * by inversion 1.
    + apply Z.eqb_neq in E. split; [done|].
      inversion 1 as [|? ? Hc _]; subst. by apply map_index_Ready in Hc.
Qed.

Lemma Get_checkComponent hc :
  Get (checkComponent hc) = aggregate (desired hc) (comstat hc).
Proof.
  unfold checkComponent, aggregate.
  destruct (scan_desired _ _ true) eqn:E.
  - apply scan_desired_true in E. by rewrite decide_True.
  - rewrite decide_False; [done|]. intros H. apply scan_desired_true in H. congruence.
Qed.

Lemma comstat_monitor_body msg hc :
  comstat (monitor_body msg hc) = <[comp msg := stat msg]> (comstat hc).
Proof. unfold monitor_body. by rewrite comstat_checkComponent. Qed.

Lemma desired_monitor_body msg hc :
  desired (monitor_body msg hc) = desired hc.
Proof. unfold monitor_body. by rewrite desired_checkComponent. Qed.

Lemma mapping_monitor_body msg hc :
  mapping (monitor_body msg hc) = mapping hc.
Proof. unfold monitor_body. by rewrite mapping_checkComponent. Qed.

Lemma Get_monitor_body msg hc :
  Get (monitor_body msg hc)
  = aggregate (desired hc) (<[comp msg := stat msg]> (comstat hc)).
Proof. unfold monitor_body. by rewrite Get_checkComponent. Qed.

Lemma desired_process msgs hc : desired (process msgs hc) = desired hc.
Proof.
  revert hc. induction msgs as [|m msgs IH]; intros hc; simpl; [done|].
  by rewrite IH, desired_monitor_body.
Qed.

Lemma mapping_process msgs hc : mapping (process msgs hc) = mapping hc.
Proof.
  revert hc. induction msgs as [|m msgs IH]; intros hc; simpl; [done|].
  by rewrite IH, mapping_monitor_body.
Qed.

Lemma process_app msgs1 msgs2 hc :
  process (msgs1 ++ msgs2) hc = process msgs2 (process msgs1 hc).
Proof.
  revert hc. induction msgs1 as [|m msgs1 IH]; intros hc; simpl; [done|].
  apply IH.
Qed.

(** After at least one event the overall status is the aggregate of the
    desired set and the table. *)
Lemma Get_process_aggregate msg msgs hc :
  Get (process (msg :: msgs) hc)
  = aggregate (desired hc) (comstat (process (msg :: msgs) hc)).
Proof.
  destruct (exists_last (l := msg :: msgs)) as (init & lst & ->); [done|].
  rewrite process_app. simpl.
  by rewrite Get_monitor_body, comstat_monitor_body, desired_process.
Qed.

(** ** Construction *)

Section FoldOptions.

(** Exported options leave the status cell and the mapping table alone. *)
Lemma exported_state option hc : exported option -> state (option hc) = state hc.
Proof. by destruct 1. Qed.

Lemma exported_mapping option hc : exported option -> mapping (option hc) = mapping hc.
Proof. by destruct 1. Qed.

Lemma fold_exported_state options hc :
  Forall exported options ->
  state (fold_left (fun h option => option h) options hc) = state hc.
Proof.
  intros Hex. revert hc.
  induction Hex as [|o os Ho _ IH]; intros hc; simpl; [done|].
  by rewrite IH, exported_state.
Qed.

Lemma fold_exported_mapping options hc :
  Forall exported options ->
  mapping (fold_left (fun h option => option h) options hc) = mapping hc.
Proof.
  intros Hex. revert hc.
  induction Hex as [|o os Ho _ IH]; intros hc; simpl; [done|].
  by rewrite IH, exported_mapping.
Qed.

End FoldOptions.

Lemma Get_New st options :
  Forall exported options -> Get (New st options) = int32 st.
Proof.
  intros Hex. unfold New, Get.
  set (hc0 := mkHealthCheck _ _ _ _ _ _ _).
  pose proof (fold_exported_state options hc0 Hex) as Hst.
  destruct (logger _); simpl; by rewrite Hst.
Qed.

Lemma mapping_New st options :
  Forall exported options -> mapping (New st options) = initial_mapping.
Proof.
  intros Hex. unfold New.
  set (hc0 := mkHealthCheck _ _ _ _ _ _ _).
  pose proof (fold_exported_mapping options hc0 Hex) as Hm.
  destruct (logger _); simpl; by rewrite Hm.
Qed.

Lemma comstat_New st options : comstat (New st options) = ∅.
Proof. reflexivity. Qed.

(** The mapping table is never written after [New]. *)
Lemma reachable_mapping hc : reachable hc -> mapping hc = initial_mapping.
Proof.
  induction 1 as [st options Hex | st hc _ IH | msg hc _ IH | hc _ IH
                 | c st hc hc' _ IH Hrep].
  - by apply mapping_New.
  - by rewrite mapping_Set.
  - by rewrite mapping_monitor_body.
  - unfold monitor. destruct (receptor hc) as [ch|]; simpl; [|done].
    by rewrite mapping_process.
  - unfold GetStatusReporter in Hrep.
    destruct (receptor hc) as [ch|].
    + destruct (chan_send ch _); inversion Hrep; subst. done.
    + inversion Hrep; subst. done.
Qed.

(** [New] leaves no nil logger behind, and nothing replaces the logger
    afterwards: the calls on [hc.logger] in [Set], [monitor] and the
    reporters always have a logger to call. *)
Lemma logger_New st options : is_Some (logger (New st options)).
Proof.
  unfold New. set (hc1 := fold_left _ _ _).
  destruct (logger hc1) as [l|] eqn:E; simpl; [rewrite E|]; eauto.
Qed.

Lemma logger_checkComponent hc : logger (checkComponent hc) = logger hc.
Proof. unfold checkComponent. by destruct (scan_desired _ _ _). Qed.

Lemma logger_process msgs hc : logger (process msgs hc) = logger hc.
Proof.
  revert hc. induction msgs as [|m msgs IH]; intros hc; simpl; [done|].
  rewrite IH. unfold monitor_body. by rewrite logger_checkComponent.
Qed.

Lemma reachable_logger hc : reachable hc -> is_Some (logger hc).
Proof.
  induction 1 as [st options Hex | st hc _ IH | msg hc _ IH | hc _ IH
                 | c st hc hc' _ IH Hrep].
  - apply logger_New.
  - exact IH.
  - unfold monitor_body. by rewrite logger_checkComponent.
  - unfold monitor. destruct (receptor hc) as [ch|]; simpl; [|done].
    by rewrite logger_process.
  - unfold GetStatusReporter in Hrep.
    destruct (receptor hc) as [ch|].
    + destruct (chan_send ch _); inversion Hrep; subst. exact IH.
    + inversion Hrep; subst. exact IH.
Qed.

(** ** The aggregation engine *)

(** C1: for every event, the engine's loop body upserts the table entry of
    the event's component with the event's status and then sets the overall
    status from a scan of the desired set over the updated table: Ready when
    every desired entry equals Ready, Unavailable otherwise.  The desired
    set itself is unchanged. *)
Theorem monitor_body_refines_spec (msg : ComponentStatus) (hc : HealthCheck) :
  (comstat (monitor_body msg hc), Get (monitor_body msg hc))
  = spec_on_event (desired hc) (comstat hc) msg
  /\ comstat (monitor_body msg hc) = <[comp msg := stat msg]> (comstat hc)
  /\ Get (monitor_body msg hc)
     = (if decide (all_desired_ready (desired hc) (comstat (monitor_body msg hc)))
        then Ready else Unavailable)
  /\ desired (monitor_body msg hc) = desired hc.
Proof.
  pose proof (comstat_monitor_body msg hc) as Hc.
  pose proof (Get_monitor_body msg hc) as Hg.
  repeat split.
  - unfold spec_on_event. by rewrite Hc, Hg.
  - exact Hc.
  - by rewrite Hg, Hc.
  - apply desired_monitor_body.
Qed.

(** C8: whatever the state and the event, the recomputation step stores
    Ready or Unavailable: [checkComponent] is one of the two calls
    [Set(Ready)] and [Set(Unavailable)], and the overall status after an
    event, or after any non-empty run of events, is never Broken nor Fail. *)
Theorem engine_writes_Ready_or_Unavailable (hc : HealthCheck)
    (msg : ComponentStatus) (msgs : list ComponentStatus) :
  (checkComponent hc = Set_ Ready hc \/ checkComponent hc = Set_ Unavailable hc)
  /\ (Get (monitor_body msg hc) = Ready \/ Get (monitor_body msg hc) = Unavailable)
  /\ (Get (process (msg :: msgs) hc) = Ready
      \/ Get (process (msg :: msgs) hc) = Unavailable)
  /\ Get (process (msg :: msgs) hc) <> Broken
  /\ Get (process (msg :: msgs) hc) <> Fail.
Proof.
  assert (Hagg : forall ds tbl, aggregate ds tbl = Ready \/ aggregate ds tbl = Unavailable).
  { intros ds tbl. unfold aggregate. destruct (decide _); auto. }
  split; [|split; [|split]].
  - unfold checkComponent. destruct (scan_desired _ _ _); auto.
  - rewrite Get_monitor_body. apply Hagg.
  - rewrite Get_process_aggregate. apply Hagg.
  - rewrite Get_process_aggregate.
    destruct (Hagg (desired hc) (comstat (process (msg :: msgs) hc))) as [-> | ->];
      split; discriminate.
Qed.

(** C9: an event (c, s) sets the table entry of c to s and leaves the entry
    of every other component as it was; every component that had an entry
    still has one. *)
Theorem monitor_body_frame (msg : ComponentStatus) (hc : HealthCheck) (c' : N) :
  comstat (monitor_body msg hc) !! c'
  = (if decide (c' = comp msg) then Some (stat msg) else comstat hc !! c')
  /\ dom (comstat hc) ⊆ dom (comstat (monitor_body msg hc)).
Proof.
  rewrite comstat_monitor_body. split.
  - destruct (decide (c' = comp msg)) as [-> | Hne].
    + apply lookup_insert_eq.
    + by apply lookup_insert_ne.
  - rewrite dom_insert_L. set_solver.
Qed.

(** C4: when a desired component has no entry in the table, the
    recomputation sets the overall status to Unavailable. *)
Theorem missing_desired_entry_unavailable (hc : HealthCheck) (c : N) :
  c ∈ desired hc ->
  comstat hc !! c = None ->
  Get (checkComponent hc) = Unavailable.
Proof.
  intros Hin Hnone. rewrite Get_checkComponent. unfold aggregate.
  rewrite decide_False; [done|].
  unfold all_desired_ready. rewrite Forall_forall. intros Hall.
  specialize (Hall c Hin). congruence.
Qed.

Lemma missing_desired_entry_unavailable_witness :
  Component.Storage ∈ desired (New Ready [SetDesired [Component.Init; Component.Storage]])
  /\ comstat (New Ready [SetDesired [Component.Init; Component.Storage]])
       !! Component.Storage = None
  /\ Get (checkComponent (New Ready [SetDesired [Component.Init; Component.Storage]]))
     = Unavailable.
Proof.
  split; [|split].
  - simpl. apply list_elem_of_further, list_elem_of_here.
  - reflexivity.
  - apply (missing_desired_entry_unavailable _ Component.Storage).
    + simpl. apply list_elem_of_further, list_elem_of_here.
    + reflexivity.
Defined.

Lemma desired_New_no_options st : desired (New st []) = [].
Proof. reflexivity. Qed.

(** C5: with an empty desired set, before any event the overall status is
    the initial status handed to [New], and after the first event (of any
    component, with any status) and after every later one it is Ready. *)
Theorem empty_desired_ready_after_first_event (st : Z) (options : list Option)
    (msg : ComponentStatus) (msgs : list ComponentStatus) :
  Forall exported options ->
  in_int32 st ->
  desired (New st options) = [] ->
  Get (process [] (New st options)) = st
  /\ Get (monitor_body msg (New st options)) = Ready
  /\ Get (process (msg :: msgs) (New st options)) = Ready.
Proof.
  intros Hex Hst Hds. split; [|split].
  - cbn [process]. rewrite Get_New by done. by apply int32_in_range.
  - rewrite Get_monitor_body, Hds. unfold aggregate.
    rewrite decide_True; [done | constructor].
  - rewrite Get_process_aggregate, Hds. unfold aggregate.
    rewrite decide_True; [done | constructor].
Qed.

Lemma empty_desired_ready_after_first_event_witness :
  Forall exported [Logger (Some (CallerLogger 0)); SetDesired []]
  /\ in_int32 Broken
  /\ desired (New Broken [Logger (Some (CallerLogger 0)); SetDesired []]) = []
  /\ Get (process [] (New Broken [Logger (Some (CallerLogger 0)); SetDesired []]))
     = Broken
  /\ Get (monitor_body (mkComponentStatus Component.Storage Fail)
            (New Broken [Logger (Some (CallerLogger 0)); SetDesired []])) = Ready
  /\ Get (process [mkComponentStatus Component.Storage Fail;
                   mkComponentStatus Component.Init Unavailable]
            (New Broken [Logger (Some (CallerLogger 0)); SetDesired []])) = Ready.
Proof.
  assert (Hex : Forall exported [Logger (Some (CallerLogger 0)); SetDesired []]).
  { repeat constructor. }
  assert (Hst : in_int32 Broken).
  { unfold in_int32. split; [discriminate | reflexivity]. }
  split; [exact Hex|]. split; [exact Hst|]. split; [reflexivity|].
  exact (empty_desired_ready_after_first_event Broken
           [Logger (Some (CallerLogger 0)); SetDesired []]
           (mkComponentStatus Component.Storage Fail)
           [mkComponentStatus Component.Init Unavailable]
           Hex Hst eq_refl).
Defined.

(** ** The status cell *)

Lemma set_all_snoc sts st hc :
  set_all (sts ++ [st]) hc = Set_ st (set_all sts hc).
Proof. unfold set_all. by rewrite fold_left_app. Qed.

(** C7: after any sequence of [Set] calls run one after the other, [Get]
    returns the status given to the last call, for every status that fits
    the 32-bit cell (the four named statuses do).  [Set] and [Get] are
    functions: they return on every input, and the logger [Set] calls is
    there in every reachable state ([reachable_logger]). *)
Theorem Get_after_set_all (sts : list Z) (st : Z) (hc : HealthCheck) :
  in_int32 st ->
  Get (set_all (sts ++ [st]) hc) = st.
Proof.
  intros Hst. rewrite set_all_snoc, Get_Set. by apply int32_in_range.
Qed.

Lemma Get_after_set_all_witness :
  in_int32 Fail
  /\ Get (set_all ([Ready; Broken; Unavailable] ++ [Fail]) (New Unavailable []))
     = Fail.
Proof.
  assert (Hst : in_int32 Fail).
  { unfold in_int32. split; [discriminate | reflexivity]. }
  split; [exact Hst|].
  exact (Get_after_set_all [Ready; Broken; Unavailable] Fail (New Unavailable []) Hst).
Defined.

(** Without the range condition [Get] returns the last status reduced to
    32 bits. *)
Lemma Get_after_set_all_int32 sts st hc :
  Get (set_all (sts ++ [st]) hc) = int32 st.
Proof. by rewrite set_all_snoc, Get_Set. Qed.

(** C10: [Fail] renders as "unknown", and so does every status other than
    Unavailable, Ready and Broken, in or out of the enumeration; the three
    named statuses render as three different strings, none of them
    "unknown". *)
Theorem String_Fail_unknown (s : Z) :
  Status.String Fail = "unknown"%string
  /\ Status.defined Fail
  /\ (s = Unavailable \/ s = Ready \/ s = Broken
      \/ Status.String s = Status.String Fail)
  /\ Status.String Unavailable = "unavailable"%string
  /\ Status.String Ready = "ready"%string
  /\ Status.String Broken = "broken"%string
  /\ Status.String Unavailable <> Status.String Fail
  /\ Status.String Ready <> Status.String Fail
  /\ Status.String Broken <> Status.String Fail.
Proof.
  split; [reflexivity|]. split; [unfold Status.defined; auto|].
  split; [|repeat split; discriminate].
  unfold Status.String.
  destruct (Z.eqb_spec s Unavailable); [auto|].
  destruct (Z.eqb_spec s Ready); [auto|].
  destruct (Z.eqb_spec s Broken); auto.
Qed.

(** ** Reporters *)

(** C6: when the receptor channel is nil, a reporter call returns (it
    neither parks on a send nor panics), records one warning on the logger
    and leaves the overall status, the component table, the desired set and
    the receptor as they were. *)
Theorem reporter_without_receptor_noop (c : N) (st : Z) (hc : HealthCheck) :
  receptor hc = None ->
  exists hc',
    GetStatusReporter c st hc = Returned hc'
    /\ Get hc' = Get hc
    /\ comstat hc' = comstat hc
    /\ desired hc' = desired hc
    /\ receptor hc' = None
    /\ logged hc' = logged hc ++ [no_channel_warning].
Proof.
  intros Hnil. unfold GetStatusReporter. rewrite Hnil.
  eexists. split; [reflexivity|]. by repeat split.
Qed.

Lemma reporter_without_receptor_noop_witness :
  receptor (New Ready [SetDesired [Component.Storage]]) = None
  /\ exists hc',
       GetStatusReporter Component.Storage Ready
         (New Ready [SetDesired [Component.Storage]]) = Returned hc'
       /\ Get hc' = Get (New Ready [SetDesired [Component.Storage]])
       /\ comstat hc' = comstat (New Ready [SetDesired [Component.Storage]])
       /\ desired hc' = desired (New Ready [SetDesired [Component.Storage]])
       /\ receptor hc' = None
       /\ logged hc'
          = logged (New Ready [SetDesired [Component.Storage]]) ++ [no_channel_warning].
Proof.
  split; [reflexivity|].
  exact (reporter_without_receptor_noop Component.Storage Ready
           (New Ready [SetDesired [Component.Storage]]) eq_refl).
Defined.

(** With a channel that has room the report is queued instead. *)
Lemma reporter_with_receptor_sends c st hc ch :
  receptor hc = Some ch -> closed ch = false -> (length (buf ch) < cap ch)%nat ->
  GetStatusReporter c st hc
  = Returned (with_receptor
                (Some (mkChan (cap ch) (buf ch ++ [mkComponentStatus c st]) false)) hc).
Proof.
  intros Hch Hopen Hroom. unfold GetStatusReporter, chan_send.
  rewrite Hch, Hopen. apply Nat.ltb_lt in Hroom. by rewrite Hroom.
Qed.

(** ** The HTTP probe *)

Lemma map_index_initial_mapping s :
  map_index initial_mapping s
  = (if s =? Unavailable then StatusServiceUnavailable
     else if s =? Ready then StatusNoContent
     else 0).
Proof.
  unfold map_index, initial_mapping.
  destruct (Z.eqb_spec s Unavailable) as [-> | Hu].
  { by rewrite lookup_insert_ne, lookup_insert_eq. }
  destruct (Z.eqb_spec s Ready) as [-> | Hr].
  { by rewrite lookup_insert_eq. }
  by rewrite !lookup_insert_ne, lookup_empty.
Qed.

(** C2, as the code has it: in every reachable state the handler gives
    [WriteHeader] 503 when the overall status is Unavailable and 204 when it
    is Ready; the mapping table holds these two entries only, nothing sets a
    default, and for any other status the lookup yields the zero value 0. *)
Theorem httpHandler_transport_code (hc : HealthCheck) :
  reachable hc ->
  statusCode (httpHandler hc)
  = (if Get hc =? Unavailable then 503
     else if Get hc =? Ready then 204
     else 0)
  /\ dom (mapping hc) = {[Unavailable; Ready]}
  /\ written (httpHandler hc) = "Server not available"%string.
Proof.
  intros Hr. apply reachable_mapping in Hr.
  unfold httpHandler. simpl. rewrite Hr. split; [|split].
  - apply map_index_initial_mapping.
  - unfold initial_mapping. rewrite !dom_insert_L, dom_empty_L. set_solver.
  - reflexivity.
Qed.

Lemma httpHandler_transport_code_witness :
  reachable (Set_ Ready (New Unavailable []))
  /\ statusCode (httpHandler (Set_ Ready (New Unavailable [])))
     = (if Get (Set_ Ready (New Unavailable [])) =? Unavailable then 503
        else if Get (Set_ Ready (New Unavailable [])) =? Ready then 204
        else 0)
  /\ dom (mapping (Set_ Ready (New Unavailable []))) = {[Unavailable; Ready]}
  /\ written (httpHandler (Set_ Ready (New Unavailable [])))
     = "Server not available"%string.
Proof.
  assert (Hr : reachable (Set_ Ready (New Unavailable []))).
  { apply reachable_Set, reachable_New. constructor. }
  split; [exact Hr|].
  exact (httpHandler_transport_code (Set_ Ready (New Unavailable [])) Hr).
Defined.

(** C2, as the claim has it, fails: after [Set(Broken)] and after
    [Set(Fail)] the handler gives [WriteHeader] 0, which is neither 503 nor
    any HTTP status code, so no default status code makes the handler agree
    with the specification's table on all reachable states. *)
Lemma httpHandler_no_configured_default :
  statusCode (httpHandler (Set_ Broken (New Unavailable []))) = 0
  /\ statusCode (httpHandler (Set_ Fail (New Unavailable []))) = 0
  /\ ~ http_status_code 0
  /\ ~ (exists dflt,
          http_status_code dflt
          /\ forall hc, reachable hc ->
               statusCode (httpHandler hc) = spec_transport_code dflt (Get hc)).
Proof.
  assert (Hr : reachable (Set_ Broken (New Unavailable []))).
  { apply reachable_Set, reachable_New. constructor. }
  assert (Hcode : statusCode (httpHandler (Set_ Broken (New Unavailable []))) = 0).
  { reflexivity. }
  split; [exact Hcode|]. split; [reflexivity|].
  split; [unfold http_status_code; lia|].
  intros (dflt & Hd & Hall). specialize (Hall _ Hr).
  rewrite Hcode in Hall. change (spec_transport_code dflt _) with dflt in Hall.
  subst dflt. unfold http_status_code in Hd. lia.
Qed.

(** ** Non-interference of components outside the desired set *)

Section NonInterference.

Variable ds : list N.


Lemma aggregate_agree t1 t2 :
  agree_on ds t1 t2 -> aggregate ds t1 = aggregate ds t2.
Proof.
  intros Hag. unfold aggregate, all_desired_ready.
  destruct (decide (Forall _ ds)) as [H1 | H1];
    destruct (decide (Forall _ ds)) as [H2 | H2]; try done; exfalso;
    rewrite Forall_forall in *.
  - apply H2. intros c Hc. rewrite <- Hag by done. by apply H1.
  - apply H1. intros c Hc. rewrite Hag by done. by apply H2.
Qed.

Lemma agree_on_insert t1 t2 m1 m2 :
  same_desired_report ds m1 m2 ->
  agree_on ds t1 t2 ->
  agree_on ds (<[comp m1 := stat m1]> t1) (<[comp m2 := stat m2]> t2).
Proof.
  intros [Hc Hs] Hag c Hin. rewrite <- Hc.
  destruct (decide (comp m1 = c)) as [<- | Hne].
  - rewrite !lookup_insert_eq. f_equal. by apply Hs.
  - rewrite !lookup_insert_ne by done. by apply Hag.
Qed.

(** A report of a component outside the desired set leaves the desired
    entries alone. *)
Lemma agree_on_insert_outside tbl m :
  comp m ∉ ds -> agree_on ds (<[comp m := stat m]> tbl) tbl.
Proof.
  intros Hout c Hin. apply lookup_insert_ne. intros Heq. apply Hout.
  by rewrite Heq.
Qed.


(** Dropping the reports of components outside the desired set does not
    change the desired entries of the table. *)
Lemma process_desired_reports msgs :
  forall hc1 hc2,
    desired hc1 = ds -> desired hc2 = ds ->
    agree_on ds (comstat hc1) (comstat hc2) ->
    agree_on ds (comstat (process msgs hc1))
                (comstat (process (desired_reports ds msgs) hc2)).
Proof.
  unfold desired_reports.
  induction msgs as [|m msgs IH]; intros hc1 hc2 Hd1 Hd2 Hag; [done|].
  destruct (decide (comp m ∈ ds)) as [Hin | Hout].
  - rewrite filter_cons_True by done. simpl. apply IH.
    + by rewrite desired_monitor_body.
    + by rewrite desired_monitor_body.
    + rewrite !comstat_monitor_body. apply agree_on_insert; [|done].
      by split.
  - rewrite filter_cons_False by done. simpl. apply IH.
    + by rewrite desired_monitor_body.
    + done.
    + rewrite comstat_monitor_body. intros c Hc.
      rewrite agree_on_insert_outside by done. by apply Hag.
Qed.

End NonInterference.



(** Reports of components outside the desired set can also be dropped from
    a run, as long as some report remains to make the engine recompute. *)
Lemma non_desired_reports_dropped hc msg msgs msg' msgs' :
  desired_reports (desired hc) (msg :: msgs) = msg' :: msgs' ->
  Get (process (msg :: msgs) hc) = Get (process (msg' :: msgs') hc).
Proof.
  intros Hf. rewrite !Get_process_aggregate, <- Hf.
  apply aggregate_agree. by apply process_desired_reports.
Qed.

(** The first report is what makes the engine leave the initial status,
    whichever component sends it: the status the component reports does not
    matter, the arrival of the report does. *)
Example first_report_triggers_recomputation :
  Get (New Ready [SetDesired [Component.Storage]]) = Ready
  /\ Get (process [mkComponentStatus Component.Init Ready]
            (New Ready [SetDesired [Component.Storage]])) = Unavailable.
Proof. split; reflexivity. Qed.

(** ** Scenarios *)

(** Desired set {Init, Storage}: Unavailable at first, Ready once both have
    reported Ready, Unavailable again when Init reports Unavailable. *)
Example two_desired_components :
  let hc := New Unavailable [SetDesired [Component.Init; Component.Storage]] in
  Get hc = Unavailable
  /\ Get (process [mkComponentStatus Component.Init Ready] hc) = Unavailable
  /\ Get (process [mkComponentStatus Component.Init Ready;
                   mkComponentStatus Component.Storage Ready] hc) = Ready
  /\ Get (process [mkComponentStatus Component.Init Ready;
                   mkComponentStatus Component.Storage Ready;
                   mkComponentStatus Component.Init Unavailable] hc) = Unavailable.
Proof. repeat split; reflexivity. Qed.

(** A report queued by a reporter is processed by the engine, which then
    waits for the next one. *)
Example report_then_monitor :
  let ch := mkChan 1 [] false in
  let hc := New Unavailable [SetDesired [Component.Storage]; SetReceptor (Some ch)] in
  exists hc',
    GetStatusReporter Component.Storage Ready hc = Returned hc'
    /\ Get (fst (monitor hc')) = Ready
    /\ snd (monitor hc') = Receiving.
Proof. eexists. repeat split; reflexivity. Qed.

(** The probe answers 204 when Ready and 503 when Unavailable. *)
Example probe_codes :
  statusCode (httpHandler (New Ready [])) = 204
  /\ statusCode (httpHandler (New Unavailable [])) = 503.
Proof. split; reflexivity. Qed.

(** A status that does not fit 32 bits is cut down by the cell. *)
Example Set_out_of_range :
  Get (Set_ (2 ^ 32) (New Ready [])) = Unavailable.
Proof. reflexivity. Qed.

(** ** Runs of the engine: the table and the status after many events *)

Lemma upsert_all_app msgs1 msgs2 tbl :
  upsert_all (msgs1 ++ msgs2) tbl = upsert_all msgs2 (upsert_all msgs1 tbl).
Proof. unfold upsert_all. apply fold_left_app. Qed.

Lemma comstat_process msgs hc :
  comstat (process msgs hc) = upsert_all msgs (comstat hc).
Proof.
  revert hc. induction msgs as [|m msgs IH]; intros hc; [done|].
  cbn [process]. rewrite IH, comstat_monitor_body. done.
Qed.

Lemma Get_process_nonempty msgs hc :
  msgs <> [] ->
  Get (process msgs hc) = aggregate (desired hc) (upsert_all msgs (comstat hc)).
Proof.
  destruct msgs as [|m msgs]; [done|]. intros _.
  by rewrite Get_process_aggregate, comstat_process.
Qed.

Lemma upsert_all_lookup msgs (tbl : gmap N Z) c :
  upsert_all msgs tbl !! c
  = match last_report c msgs with
    | Some s => Some s
    | None => tbl !! c
    end.
Proof.
  revert tbl. induction msgs as [|m msgs IH]; intros tbl; [done|].
  change (upsert_all (m :: msgs) tbl)
    with (upsert_all msgs (<[comp m := stat m]> tbl)).
  rewrite IH. cbn [last_report].
  destruct (last_report c msgs) as [s|]; [done|].
  destruct (decide (comp m = c)) as [<- | Hne].
  - apply lookup_insert_eq.
  - by apply lookup_insert_ne.
Qed.

Lemma dom_upsert_all msgs (tbl : gmap N Z) :
  dom (upsert_all msgs tbl) = dom tbl ∪ list_to_set (comp <$> msgs).
Proof.
  revert tbl. induction msgs as [|m msgs IH]; intros tbl.
  - simpl. by rewrite union_empty_r_L.
  - change (upsert_all (m :: msgs) tbl)
      with (upsert_all msgs (<[comp m := stat m]> tbl)).
    rewrite IH, dom_insert_L. simpl.
    by rewrite (comm_L (∪) {[comp m]} (dom tbl)), <- (assoc_L (∪)).
Qed.

(** X1: after a run of events the table entry of a component is the status
    of its last report in the run, and the entry it had before the run when
    the run has no report of it. *)
Theorem table_after_run (msgs : list ComponentStatus) (hc : HealthCheck) (c : N) :
  comstat (process msgs hc) !! c
  = match last_report c msgs with
    | Some s => Some s
    | None => comstat hc !! c
    end.
Proof. rewrite comstat_process. apply upsert_all_lookup. Qed.

(** X2: started from [New], whatever the options, the overall status after
    a non-empty run of events is Ready exactly when the last report of every
    desired component in the run is Ready; a desired component that did not
    report in the run makes it Unavailable. *)
Theorem status_after_run_from_New (st : Z) (options : list Option)
    (msg : ComponentStatus) (msgs : list ComponentStatus) :
  Get (process (msg :: msgs) (New st options))
  = (if decide (Forall (fun c => last_report c (msg :: msgs) = Some Ready)
                       (desired (New st options)))
     then Ready else Unavailable).
Proof.
  rewrite Get_process_nonempty by done. unfold aggregate, all_desired_ready.
  assert (Hiff : forall c,
    upsert_all (msg :: msgs) (comstat (New st options)) !! c = Some Ready
    <-> last_report c (msg :: msgs) = Some Ready).
  { intros c. rewrite upsert_all_lookup, comstat_New, lookup_empty.
    destruct (last_report c (msg :: msgs)); split; intros; congruence. }
  destruct (decide (Forall _ _)) as [H1 | H1];
    destruct (decide (Forall _ _)) as [H2 | H2]; try done; exfalso.
  - apply H2. eapply Forall_impl; [exact H1|]. intros c. apply Hiff.
  - apply H1. eapply Forall_impl; [exact H2|]. intros c. apply Hiff.
Qed.

(** X3: the components with a table entry after a run are those that had
    one before together with those that reported in the run. *)
Theorem table_domain_after_run (msgs : list ComponentStatus) (hc : HealthCheck) :
  dom (comstat (process msgs hc))
  = dom (comstat hc) ∪ list_to_set (comp <$> msgs).
Proof. rewrite comstat_process. apply dom_upsert_all. Qed.

(** X4: of two consecutive reports of the same component only the second
    counts: dropping the first changes neither the table nor the overall
    status at the end of the run. *)
Theorem consecutive_reports_last_wins (pre post : list ComponentStatus)
    (m1 m2 : ComponentStatus) (hc : HealthCheck) :
  comp m1 = comp m2 ->
  comstat (process (pre ++ m1 :: m2 :: post) hc)
  = comstat (process (pre ++ m2 :: post) hc)
  /\ Get (process (pre ++ m1 :: m2 :: post) hc)
     = Get (process (pre ++ m2 :: post) hc).
Proof.
  intros Hc.
  assert (Htbl : forall tbl, upsert_all (pre ++ m1 :: m2 :: post) tbl
                             = upsert_all (pre ++ m2 :: post) tbl).
  { intros tbl. rewrite !upsert_all_app.
    change (upsert_all (m1 :: m2 :: post) ?t)
      with (upsert_all post (<[comp m2 := stat m2]> (<[comp m1 := stat m1]> t))).
    change (upsert_all (m2 :: post) ?t)
      with (upsert_all post (<[comp m2 := stat m2]> t)).
    by rewrite Hc, insert_insert_eq. }
  split.
  - by rewrite !comstat_process, Htbl.
  - rewrite !Get_process_nonempty, Htbl; [done | |]; by destruct pre.
Qed.

Lemma consecutive_reports_last_wins_witness :
  comp (mkComponentStatus Component.Storage Fail)
  = comp (mkComponentStatus Component.Storage Ready)
  /\ comstat (process ([] ++ mkComponentStatus Component.Storage Fail
                          :: mkComponentStatus Component.Storage Ready :: [])
                (New Unavailable [SetDesired [Component.Storage]]))
     = comstat (process ([] ++ mkComponentStatus Component.Storage Ready :: [])
                  (New Unavailable [SetDesired [Component.Storage]]))
  /\ Get (process ([] ++ mkComponentStatus Component.Storage Fail
                      :: mkComponentStatus Component.Storage Ready :: [])
            (New Unavailable [SetDesired [Component.Storage]]))
     = Get (process ([] ++ mkComponentStatus Component.Storage Ready :: [])
              (New Unavailable [SetDesired [Component.Storage]])).
Proof.
  split; [reflexivity|].
  exact (consecutive_reports_last_wins [] []
           (mkComponentStatus Component.Storage Fail)
           (mkComponentStatus Component.Storage Ready)
           (New Unavailable [SetDesired [Component.Storage]]) eq_refl).
Defined.

(** X5: two consecutive reports of different components can be swapped:
    the table and the overall status at the end of the run are the same. *)
Theorem reports_of_different_components_commute (pre post : list ComponentStatus)
    (m1 m2 : ComponentStatus) (hc : HealthCheck) :
  comp m1 <> comp m2 ->
  comstat (process (pre ++ m1 :: m2 :: post) hc)
  = comstat (process (pre ++ m2 :: m1 :: post) hc)
  /\ Get (process (pre ++ m1 :: m2 :: post) hc)
     = Get (process (pre ++ m2 :: m1 :: post) hc).
Proof.
  intros Hc.
  assert (Htbl : forall tbl, upsert_all (pre ++ m1 :: m2 :: post) tbl
                             = upsert_all (pre ++ m2 :: m1 :: post) tbl).
  { intros tbl. rewrite !upsert_all_app.
    change (upsert_all (m1 :: m2 :: post) ?t)
      with (upsert_all post (<[comp m2 := stat m2]> (<[comp m1 := stat m1]> t))).
    change (upsert_all (m2 :: m1 :: post) ?t)
      with (upsert_all post (<[comp m1 := stat m1]> (<[comp m2 := stat m2]> t))).
    by rewrite insert_insert_ne. }
  split.
  - by rewrite !comstat_process, Htbl.
  - rewrite !Get_process_nonempty, Htbl; [done | |]; by destruct pre.
Qed.

Lemma reports_of_different_components_commute_witness :
  comp (mkComponentStatus Component.Init Ready)
  <> comp (mkComponentStatus Component.Storage Unavailable)
  /\ comstat (process ([] ++ mkComponentStatus Component.Init Ready
                          :: mkComponentStatus Component.Storage Unavailable :: [])
                (New Unavailable [SetDesired [Component.Init; Component.Storage]]))
     = comstat (process ([] ++ mkComponentStatus Component.Storage Unavailable
                            :: mkComponentStatus Component.Init Ready :: [])
                  (New Unavailable [SetDesired [Component.Init; Component.Storage]]))
  /\ Get (process ([] ++ mkComponentStatus Component.Init Ready
                      :: mkComponentStatus Component.Storage Unavailable :: [])
            (New Unavailable [SetDesired [Component.Init; Component.Storage]]))
     = Get (process ([] ++ mkComponentStatus Component.Storage Unavailable
                        :: mkComponentStatus Component.Init Ready :: [])
              (New Unavailable [SetDesired [Component.Init; Component.Storage]])).
Proof.
  assert (Hne : comp (mkComponentStatus Component.Init Ready)
                <> comp (mkComponentStatus Component.Storage Unavailable)).
  { discriminate. }
  split; [exact Hne|].
  exact (reports_of_different_components_commute [] []
           (mkComponentStatus Component.Init Ready)
           (mkComponentStatus Component.Storage Unavailable)
           (New Unavailable [SetDesired [Component.Init; Component.Storage]]) Hne).
Defined.

(** X6: the engine does not look at the overall status it overwrites: a
    status stored by a direct [Set], Broken or Fail included, is gone after
    the next event, and the run ends as it would have without that [Set]. *)
Theorem direct_Set_forgotten_by_engine (st : Z) (msg : ComponentStatus)
    (msgs : list ComponentStatus) (hc : HealthCheck) :
  Get (process (msg :: msgs) (Set_ st hc)) = Get (process (msg :: msgs) hc)
  /\ comstat (process (msg :: msgs) (Set_ st hc))
     = comstat (process (msg :: msgs) hc).
Proof.
  split.
  - by rewrite !Get_process_nonempty.
  - by rewrite !comstat_process.
Qed.

(** ** What the engine logs *)

Lemma logged_monitor_body msg hc :
  logged (monitor_body msg hc)
  = logged hc ++ event_log msg (Get (monitor_body msg hc)).
Proof.
  unfold monitor_body, checkComponent.
  destruct (scan_desired _ _ _); simpl; by rewrite <- app_assoc.
Qed.

Lemma logged_process msgs hc :
  exists entries,
    logged (process msgs hc) = logged hc ++ entries
    /\ length entries = (2 * length msgs)%nat
    /\ Forall (fun e => level e = InfoLevel) entries.
Proof.
  revert hc. induction msgs as [|m msgs IH]; intros hc.
  - exists []. split; [by rewrite app_nil_r|]. by split.
  - cbn [process]. destruct (IH (monitor_body m hc)) as (es & Hes & Hlen & Hlv).
    exists (event_log m (Get (monitor_body m hc)) ++ es).
    rewrite Hes, logged_monitor_body, <- app_assoc. split; [done|]. split.
    + rewrite length_app, Hlen. simpl. lia.
    + apply Forall_app. split; [|done]. by repeat constructor.
Qed.

(** X7: every event makes the engine call the logger twice, at Info level:
    once for the component's report and once, through [Set], for the overall
    status it has just stored; a run of n events appends 2n records to the
    log and removes none. *)
Theorem engine_log_two_records_per_event (msg : ComponentStatus)
    (msgs : list ComponentStatus) (hc : HealthCheck) :
  logged (monitor_body msg hc)
  = logged hc ++ event_log msg (Get (monitor_body msg hc))
  /\ exists entries,
       logged (process msgs hc) = logged hc ++ entries
       /\ length entries = (2 * length msgs)%nat
       /\ Forall (fun e => level e = InfoLevel) entries.
Proof. split; [apply logged_monitor_body | apply logged_process]. Qed.

(** ** The probe after [Ready] and after engine events *)

(** X8: in a reachable state, after [Ready()] the overall status is Ready
    and the probe answers 204. *)
Theorem probe_after_Ready (hc : HealthCheck) :
  reachable hc ->
  Get (Ready_ hc) = Ready /\ statusCode (httpHandler (Ready_ hc)) = 204.
Proof.
  intros Hr. split; [reflexivity|].
  unfold httpHandler, Ready_. simpl.
  rewrite (reachable_mapping hc Hr). reflexivity.
Qed.

Lemma probe_after_Ready_witness :
  reachable (Set_ Broken (New Unavailable []))
  /\ Get (Ready_ (Set_ Broken (New Unavailable []))) = Ready
  /\ statusCode (httpHandler (Ready_ (Set_ Broken (New Unavailable [])))) = 204.
Proof.
  assert (Hr : reachable (Set_ Broken (New Unavailable []))).
  { apply reachable_Set, reachable_New. constructor. }
  split; [exact Hr|].
  exact (probe_after_Ready (Set_ Broken (New Unavailable [])) Hr).
Defined.

(** X9: in a reachable state, once the engine has processed at least one
    event the probe answers 204 when every desired component's table entry
    is Ready and 503 otherwise; it never hands 0 to [WriteHeader]. *)
Theorem probe_after_events (msg : ComponentStatus) (msgs : list ComponentStatus)
    (hc : HealthCheck) :
  reachable hc ->
  statusCode (httpHandler (process (msg :: msgs) hc))
  = (if decide (all_desired_ready (desired hc)
                  (comstat (process (msg :: msgs) hc)))
     then 204 else 503).
Proof.
  intros Hr. unfold httpHandler. cbn [statusCode].
  rewrite mapping_process, (reachable_mapping hc Hr), map_index_initial_mapping.
  rewrite Get_process_aggregate. unfold aggregate.
  by destruct (decide _).
Qed.

Lemma probe_after_events_witness :
  reachable (New Unavailable [SetDesired [Component.Storage]])
  /\ statusCode (httpHandler
                   (process (mkComponentStatus Component.Storage Ready :: [])
                      (New Unavailable [SetDesired [Component.Storage]])))
     = (if decide (all_desired_ready
                     (desired (New Unavailable [SetDesired [Component.Storage]]))
                     (comstat (process (mkComponentStatus Component.Storage Ready :: [])
                                 (New Unavailable [SetDesired [Component.Storage]]))))
        then 204 else 503).
Proof.
  assert (Hr : reachable (New Unavailable [SetDesired [Component.Storage]])).
  { apply reachable_New. repeat constructor. }
  split; [exact Hr|].
  exact (probe_after_events (mkComponentStatus Component.Storage Ready) []
           (New Unavailable [SetDesired [Component.Storage]]) Hr).
Defined.

(** ** Reporters and the channel *)

(** X10: a reporter never writes the overall status, the table or the
    desired set itself, whether its send goes through, parks or finds no
    channel; only the engine acts on a report.  The call panics only on a
    closed channel. *)
Theorem reporter_writes_no_status (c : N) (st : Z) (hc : HealthCheck) :
  match GetStatusReporter c st hc with
  | Returned hc' | Blocked hc' =>
      Get hc' = Get hc /\ comstat hc' = comstat hc /\ desired hc' = desired hc
      /\ mapping hc' = mapping hc /\ logger hc' = logger hc
  | Panicked => exists ch, receptor hc = Some ch /\ closed ch = true
  end.
Proof.
  unfold GetStatusReporter, chan_send.
  destruct (receptor hc) as [ch|]; [|done].
  destruct (closed ch) eqn:Hcl; [by exists ch|].
  by destruct (_ <? _)%nat.
Qed.



Lemma monitor_body_with_receptor r msg hc :
  monitor_body msg (with_receptor r hc) = with_receptor r (monitor_body msg hc).
Proof.
  unfold monitor_body, checkComponent. simpl.
  by destruct (scan_desired _ _ _).
Qed.

Lemma process_with_receptor r msgs hc :
  process msgs (with_receptor r hc) = with_receptor r (process msgs hc).
Proof.
  revert hc. induction msgs as [|m msgs IH]; intros hc; [done|].
  cbn [process]. by rewrite monitor_body_with_receptor, IH.
Qed.

Lemma report_all_queues msgs :
  forall hc ch,
    receptor hc = Some ch -> closed ch = false ->
    (length (buf ch) + length msgs <= cap ch)%nat ->
    report_all msgs hc
    = Returned (with_receptor (Some (mkChan (cap ch) (buf ch ++ msgs) false)) hc).
Proof.
  induction msgs as [|m msgs IH]; intros hc ch Hch Hopen Hroom.
  - destruct hc, ch; simpl in *. subst. by rewrite app_nil_r.
  - destruct m as [c s]. cbn [report_all comp stat]. simpl in Hroom.
    rewrite (reporter_with_receptor_sends c s hc ch) by (done || lia).
    rewrite (IH _ (mkChan (cap ch) (buf ch ++ [mkComponentStatus c s]) false)).
    + simpl. by rewrite <- app_assoc.
    + reflexivity.
    + reflexivity.
    + simpl. rewrite length_app. simpl. lia.
Qed.

(** X12: reports are delivered in order.  When the channel is open and has
    room for them, a run of reporter calls returns, and the engine then
    processes what was already queued followed by these reports, in the
    order of the calls, leaves the buffer empty and waits for more. *)
Theorem reports_delivered_in_order (msgs : list ComponentStatus)
    (hc : HealthCheck) (ch : Chan) :
  receptor hc = Some ch ->
  closed ch = false ->
  (length (buf ch) + length msgs <= cap ch)%nat ->
  exists hc',
    report_all msgs hc = Returned hc'
    /\ monitor hc'
       = (with_receptor (Some (mkChan (cap ch) [] false))
            (process (buf ch ++ msgs) hc), Receiving).
Proof.
  intros Hch Hopen Hroom. eexists. split.
  - by apply report_all_queues.
  - rewrite <- process_with_receptor. reflexivity.
Qed.

Lemma reports_delivered_in_order_witness :
  receptor (New Unavailable [SetDesired [Component.Init; Component.Storage];
                             SetReceptor (Some (mkChan 2 [] false))])
  = Some (mkChan 2 [] false)
  /\ closed (mkChan 2 [] false) = false
  /\ (length (buf (mkChan 2 [] false))
      + length [mkComponentStatus Component.Init Ready;
                mkComponentStatus Component.Storage Ready]
      <= cap (mkChan 2 [] false))%nat
  /\ exists hc',
       report_all [mkComponentStatus Component.Init Ready;
                   mkComponentStatus Component.Storage Ready]
         (New Unavailable [SetDesired [Component.Init; Component.Storage];
                           SetReceptor (Some (mkChan 2 [] false))])
       = Returned hc'
       /\ monitor hc'
          = (with_receptor (Some (mkChan (cap (mkChan 2 [] false)) [] false))
               (process (buf (mkChan 2 [] false)
                         ++ [mkComponentStatus Component.Init Ready;
                             mkComponentStatus Component.Storage Ready])
                  (New Unavailable [SetDesired [Component.Init; Component.Storage];
                                    SetReceptor (Some (mkChan 2 [] false))])),
             Receiving).
Proof.
  assert (Hroom : (length (buf (mkChan 2 [] false))
      + length [mkComponentStatus Component.Init Ready;
                mkComponentStatus Component.Storage Ready]
      <= cap (mkChan 2 [] false))%nat).
  { simpl. constructor. }
  split; [reflexivity|]. split; [reflexivity|]. split; [exact Hroom|].
  exact (reports_delivered_in_order
           [mkComponentStatus Component.Init Ready;
            mkComponentStatus Component.Storage Ready]
           (New Unavailable [SetDesired [Component.Init; Component.Storage];
                             SetReceptor (Some (mkChan 2 [] false))])
           (mkChan 2 [] false) eq_refl eq_refl Hroom).
Defined.

(** X13: with nothing to receive (a nil channel, or a channel with an empty
    buffer) the engine changes neither the overall status, nor the table,
    nor the log; it exits exactly when the channel is there and closed. *)
Theorem monitor_idle (hc : HealthCheck) :
  receptor hc = None \/ (exists ch, receptor hc = Some ch /\ buf ch = []) ->
  Get (fst (monitor hc)) = Get hc
  /\ comstat (fst (monitor hc)) = comstat hc
  /\ logged (fst (monitor hc)) = logged hc
  /\ snd (monitor hc)
     = match receptor hc with
       | Some ch => if closed ch then Exited else Receiving
       | None => Receiving
       end.
Proof.
  unfold monitor. intros [Hnil | (ch & Hch & Hbuf)].
  - by rewrite Hnil.
  - rewrite Hch, Hbuf. done.
Qed.

Lemma monitor_idle_witness :
  (receptor (New Ready [SetReceptor (Some (mkChan 1 [] true))]) = None
   \/ exists ch, receptor (New Ready [SetReceptor (Some (mkChan 1 [] true))]) = Some ch
                 /\ buf ch = [])
  /\ Get (fst (monitor (New Ready [SetReceptor (Some (mkChan 1 [] true))])))
     = Get (New Ready [SetReceptor (Some (mkChan 1 [] true))])
  /\ comstat (fst (monitor (New Ready [SetReceptor (Some (mkChan 1 [] true))])))
     = comstat (New Ready [SetReceptor (Some (mkChan 1 [] true))])
  /\ logged (fst (monitor (New Ready [SetReceptor (Some (mkChan 1 [] true))])))
     = logged (New Ready [SetReceptor (Some (mkChan 1 [] true))])
  /\ snd (monitor (New Ready [SetReceptor (Some (mkChan 1 [] true))]))
     = match receptor (New Ready [SetReceptor (Some (mkChan 1 [] true))]) with
       | Some ch => if closed ch then Exited else Receiving
       | None => Receiving
       end.
Proof.
  assert (H : receptor (New Ready [SetReceptor (Some (mkChan 1 [] true))]) = None
   \/ exists ch, receptor (New Ready [SetReceptor (Some (mkChan 1 [] true))]) = Some ch
                 /\ buf ch = []).
  { right. exists (mkChan 1 [] true). split; reflexivity. }
  split; [exact H|].
  exact (monitor_idle (New Ready [SetReceptor (Some (mkChan 1 [] true))]) H).
Defined.

(** ** Serving *)

(** X14: when the HTTP server comes back with an error the overall status
    is forced to Broken, with the table untouched; Broken does not stick:
    the next event makes the engine overwrite it, and the run ends as if the
    failure had not happened.  Without an error nothing changes. *)
Theorem serve_failure_sets_Broken (e : string) (msg : ComponentStatus)
    (msgs : list ComponentStatus) (hc : HealthCheck) :
  Get (serve_goroutine (Some e) hc) = Broken
  /\ comstat (serve_goroutine (Some e) hc) = comstat hc
  /\ Get (process (msg :: msgs) (serve_goroutine (Some e) hc))
     = Get (process (msg :: msgs) hc)
  /\ serve_goroutine None hc = hc.
Proof.
  split; [reflexivity|]. split; [reflexivity|]. split; [|reflexivity].
  by rewrite !Get_process_nonempty.
Qed.

(** X15: [Serve] returns the error of [net.Listen] on the address made of a
    colon and the decimal port, and no error otherwise; either way it makes
    one logger call (at Error level on failure, Info on success) and leaves
    the overall status and the table as they were: a failure to listen does
    not make the status Broken. *)
Theorem Serve_keeps_status (listen : string -> option string) (port : Z)
    (hc : HealthCheck) :
  snd (Serve listen port hc) = listen (":" ++ Itoa port)%string
  /\ Get (fst (Serve listen port hc)) = Get hc
  /\ comstat (fst (Serve listen port hc)) = comstat hc
  /\ exists entry,
       logged (fst (Serve listen port hc)) = logged hc ++ [entry]
       /\ level entry = match listen (":" ++ Itoa port)%string with
                        | Some _ => ErrorLevel
                        | None => InfoLevel
                        end.
Proof.
  unfold Serve. destruct (listen _) as [err|]; simpl;
    repeat split; eexists; split; reflexivity.
Qed.

(** ** What no operation changes *)

Lemma step_frame hc hc' :
  step hc hc' ->
  desired hc' = desired hc
  /\ mapping hc' = mapping hc
  /\ logger hc' = logger hc
  /\ logged hc `prefix_of` logged hc'
  /\ dom (comstat hc) ⊆ dom (comstat hc').
Proof.
  destruct 1 as [st hc | hc | hc | c st hc hc' Hrep | st hc hc' Hrep
                | listen port hc | err hc].
  - repeat split; try done. by eexists.
  - repeat split; try done. by eexists.
  - unfold monitor. destruct (receptor hc) as [ch|]; simpl; [|done].
    rewrite desired_process, mapping_process, logger_process, comstat_process.
    repeat split; try done.
    + destruct (logged_process (buf ch)
                  (with_receptor (Some (mkChan (cap ch) [] (closed ch))) hc))
        as (es & Hes & _). rewrite Hes. by eexists.
    + rewrite dom_upsert_all. apply union_subseteq_l.
  - unfold GetStatusReporter in Hrep. destruct (receptor hc) as [ch|].
    + destruct (chan_send ch _); inversion Hrep; subst. done.
    + inversion Hrep; subst. repeat split; try done. by eexists.
  - inversion Hrep; subst. done.
  - unfold Serve. destruct (listen _); simpl; repeat split; try done; by eexists.
  - destruct err; simpl; repeat split; try done. eexists.
    by rewrite <- app_assoc.
Qed.

(** X16: whatever sequence of operations runs on a [HealthCheck] ([Set],
    [Ready], the engine, reporters, [Serve], the server's goroutine), the
    desired set, the mapping table and the logger stay as they are, the log
    only grows at its end, and no table entry disappears. *)
Theorem operations_frame (hc hc' : HealthCheck) :
  rtc step hc hc' ->
  desired hc' = desired hc
  /\ mapping hc' = mapping hc
  /\ logger hc' = logger hc
  /\ logged hc `prefix_of` logged hc'
  /\ dom (comstat hc) ⊆ dom (comstat hc').
Proof.
  induction 1 as [hc | hc hc1 hc2 Hstep _ IH]; [done|].
  destruct (step_frame _ _ Hstep) as (Hd & Hm & Hl & Hp & Hdom).
  destruct IH as (Hd' & Hm' & Hl' & Hp' & Hdom').
  repeat split; try congruence; by etrans.
Qed.

Lemma operations_frame_witness :
  rtc step (New Unavailable [SetDesired [Component.Storage]])
           (fst (monitor (Set_ Fail (New Unavailable [SetDesired [Component.Storage]]))))
  /\ desired (fst (monitor (Set_ Fail (New Unavailable [SetDesired [Component.Storage]]))))
     = desired (New Unavailable [SetDesired [Component.Storage]])
  /\ mapping (fst (monitor (Set_ Fail (New Unavailable [SetDesired [Component.Storage]]))))
     = mapping (New Unavailable [SetDesired [Component.Storage]])
  /\ logger (fst (monitor (Set_ Fail (New Unavailable [SetDesired [Component.Storage]]))))
     = logger (New Unavailable [SetDesired [Component.Storage]])
  /\ logged (New Unavailable [SetDesired [Component.Storage]])
     `prefix_of`
     logged (fst (monitor (Set_ Fail (New Unavailable [SetDesired [Component.Storage]]))))
  /\ dom (comstat (New Unavailable [SetDesired [Component.Storage]]))
     ⊆ dom (comstat (fst (monitor
             (Set_ Fail (New Unavailable [SetDesired [Component.Storage]]))))).
Proof.
  assert (Hrun : rtc step (New Unavailable [SetDesired [Component.Storage]])
           (fst (monitor (Set_ Fail (New Unavailable [SetDesired [Component.Storage]]))))).
  { eapply rtc_l; [apply (step_Set Fail)|]. apply rtc_once, step_monitor. }
  split; [exact Hrun|].
  exact (operations_frame _ _ Hrun).
Defined.

(** ** The status cell, continued *)

Lemma reporter_state_unchanged c st hc hc' :
  GetStatusReporter c st hc = Returned hc' -> Get hc' = Get hc.
Proof.
  unfold GetStatusReporter. destruct (receptor hc) as [ch|].
  - destruct (chan_send ch _); inversion 1; subst. done.
  - inversion 1; subst. done.
Qed.

Lemma in_int32_aggregate ds tbl : in_int32 (aggregate ds tbl).
Proof.
  unfold aggregate. destruct (decide _); apply defined_in_int32;
    unfold Status.defined; auto.
Qed.

(** X17: in every reachable state the overall status is a 32-bit value, so
    reading it and storing it back gives the same status. *)
Theorem reachable_status_round_trip (hc : HealthCheck) :
  reachable hc ->
  in_int32 (Get hc) /\ Get (Set_ (Get hc) hc) = Get hc.
Proof.
  intros Hr. assert (Hin : in_int32 (Get hc)).
  { induction Hr as [st options Hex | st hc _ IH | msg hc _ IH | hc _ IH
                    | c st hc hc' _ IH Hrep].
    - rewrite Get_New by done. apply int32_range.
    - rewrite Get_Set. apply int32_range.
    - rewrite Get_monitor_body. apply in_int32_aggregate.
    - unfold monitor. destruct (receptor hc) as [ch|]; [|done]. simpl.
      destruct (buf ch) as [|m rest]; [done|].
      rewrite Get_process_aggregate. apply in_int32_aggregate.
    - pose proof (reporter_state_unchanged c st hc hc' Hrep) as Hst.
      by rewrite Hst. }
  split; [done|]. rewrite Get_Set. by apply int32_in_range.
Qed.

Lemma reachable_status_round_trip_witness :
  reachable (Set_ (2 ^ 32 + 3) (New Ready []))
  /\ in_int32 (Get (Set_ (2 ^ 32 + 3) (New Ready [])))
  /\ Get (Set_ (Get (Set_ (2 ^ 32 + 3) (New Ready [])))
               (Set_ (2 ^ 32 + 3) (New Ready [])))
     = Get (Set_ (2 ^ 32 + 3) (New Ready [])).
Proof.
  assert (Hr : reachable (Set_ (2 ^ 32 + 3) (New Ready []))).
  { apply reachable_Set, reachable_New. constructor. }
  split; [exact Hr|].
  exact (reachable_status_round_trip (Set_ (2 ^ 32 + 3) (New Ready [])) Hr).
Defined.

(** X18: [Set] keeps the low 32 bits of the status: two statuses that
    differ by a multiple of 2^32 leave the same overall status, and what
    [Get] then returns is always a 32-bit value. *)
Theorem Set_keeps_low_32_bits (st k : Z) (hc : HealthCheck) :
  Get (Set_ (st + k * 2 ^ 32) hc) = Get (Set_ st hc)
  /\ in_int32 (Get (Set_ st hc)).
Proof.
  rewrite !Get_Set. split; [|apply int32_range].
  unfold int32.
  replace (st + k * 2 ^ 32 + 2 ^ 31) with (st + 2 ^ 31 + k * 2 ^ 32) by lia.
  by rewrite Z_mod_plus_full.
Qed.

(** ** Component names and options *)

Lemma Component_String_cases (c : N) :
  (c = Component.Init /\ Component.String c = "initialization"%string)
  \/ (c = Component.Storage /\ Component.String c = "storage"%string)
  \/ (c = Component.ArchiveStorage /\ Component.String c = "archive-storage"%string)
  \/ (c = Component.SamplingStorage
      /\ Component.String c = "sampling-strategy-storage"%string)
  \/ Component.String c = "unknown"%string.
Proof.
  unfold Component.String.
  destruct (N.eqb_spec c Component.Init) as [-> | ?]; [auto|].
  destruct (N.eqb_spec c Component.Storage) as [-> | ?]; [auto|].
  destruct (N.eqb_spec c Component.ArchiveStorage) as [-> | ?]; [auto 6|].
  destruct (N.eqb_spec c Component.SamplingStorage) as [-> | ?]; auto 8.
Qed.

(** X19: a component whose rendering is not "unknown" is identified by its
    rendering and is not [Default]: the four named components render as
    four different strings, and [Default] renders as "unknown" like any
    value outside the enumeration. *)
Theorem Component_String_identifies (c1 c2 : N) :
  Component.String c1 = Component.String c2 ->
  Component.String c1 <> "unknown"%string ->
  c1 = c2 /\ c1 <> Component.Default.
Proof.
  intros Heq Hnamed.
  destruct (Component_String_cases c1)
    as [[E1 S1] | [[E1 S1] | [[E1 S1] | [[E1 S1] | S1]]]]; [| | | |done];
    destruct (Component_String_cases c2)
      as [[E2 S2] | [[E2 S2] | [[E2 S2] | [[E2 S2] | S2]]]];
    rewrite S1, S2 in Heq; try discriminate Heq;
    subst c1 c2; split; (reflexivity || discriminate).
Qed.

Lemma Component_String_identifies_witness :
  Component.String Component.ArchiveStorage = Component.String 3%N
  /\ Component.String Component.ArchiveStorage <> "unknown"%string
  /\ Component.ArchiveStorage = 3%N
  /\ Component.ArchiveStorage <> Component.Default.
Proof.
  assert (Hn : Component.String Component.ArchiveStorage <> "unknown"%string).
  { discriminate. }
  split; [reflexivity|]. split; [exact Hn|].
  exact (Component_String_identifies Component.ArchiveStorage 3%N eq_refl Hn).
Defined.

(** X20: options apply in order and the last one wins: whatever options
    come first, a final [SetDesired] fixes the desired set, a final
    [SetReceptor] the channel and a final [Logger] the logger, where a nil
    logger is replaced by the no-op one; the table starts empty whatever the
    options. *)
Theorem New_last_option_wins (st : Z) (options : list Option) (cs : list N)
    (r : option Chan) (l : ZapLogger) :
  desired (New st (options ++ [SetDesired cs])) = cs
  /\ receptor (New st (options ++ [SetReceptor r])) = r
  /\ logger (New st (options ++ [Logger (Some l)])) = Some l
  /\ logger (New st (options ++ [Logger None])) = Some NewNop
  /\ comstat (New st options) = ∅.
Proof.
  unfold New. rewrite !fold_left_app. simpl.
  repeat split; by destruct (logger _).
Qed.

(** ** More on the recomputation *)

(** X21: a report of a desired component with any status other than Ready
    (Unavailable, Broken, Fail or a value outside the enumeration) makes the
    overall status Unavailable, whatever the other components reported: the
    engine does not pass Broken or Fail on. *)
Theorem not_Ready_report_of_desired_component (msg : ComponentStatus)
    (hc : HealthCheck) :
  comp msg ∈ desired hc ->
  stat msg <> Ready ->
  Get (monitor_body msg hc) = Unavailable.
Proof.
  intros Hin Hst. rewrite Get_monitor_body. unfold aggregate.
  rewrite decide_False; [done|].
  unfold all_desired_ready. rewrite Forall_forall. intros Hall.
  specialize (Hall _ Hin). rewrite lookup_insert_eq in Hall. congruence.
Qed.

Lemma not_Ready_report_of_desired_component_witness :
  comp (mkComponentStatus Component.Storage Fail)
    ∈ desired (Set_ Ready (New Ready [SetDesired [Component.Storage]]))
  /\ stat (mkComponentStatus Component.Storage Fail) <> Ready
  /\ Get (monitor_body (mkComponentStatus Component.Storage Fail)
            (Set_ Ready (New Ready [SetDesired [Component.Storage]])))
     = Unavailable.
Proof.
  assert (Hin : comp (mkComponentStatus Component.Storage Fail)
    ∈ desired (Set_ Ready (New Ready [SetDesired [Component.Storage]]))).
  { simpl. apply list_elem_of_here. }
  assert (Hst : stat (mkComponentStatus Component.Storage Fail) <> Ready).
  { discriminate. }
  split; [exact Hin|]. split; [exact Hst|].
  exact (not_Ready_report_of_desired_component
           (mkComponentStatus Component.Storage Fail)
           (Set_ Ready (New Ready [SetDesired [Component.Storage]])) Hin Hst).
Defined.

(** X22: the scan with [break] depends on the desired slice only through
    its elements: two slices with the same elements, in any order and with
    any repetitions, give the same overall status on the same table. *)
Theorem desired_order_irrelevant (ds1 ds2 : list N) (hc : HealthCheck) :
  (forall c, c ∈ ds1 <-> c ∈ ds2) ->
  Get (checkComponent (with_desired ds1 hc))
  = Get (checkComponent (with_desired ds2 hc)).
Proof.
  intros Hsame. rewrite !Get_checkComponent. simpl desired. simpl comstat.
  unfold aggregate, all_desired_ready.
  destruct (decide (Forall _ ds1)) as [H1 | H1];
    destruct (decide (Forall _ ds2)) as [H2 | H2]; try done; exfalso;
    rewrite Forall_forall in *.
  - apply H2. intros c Hc. apply H1, Hsame, Hc.
  - apply H1. intros c Hc. apply H2, Hsame, Hc.
Qed.

Lemma desired_order_irrelevant_witness :
  (forall c, c ∈ [Component.Init; Component.Storage]
             <-> c ∈ [Component.Storage; Component.Init; Component.Storage])
  /\ Get (checkComponent (with_desired [Component.Init; Component.Storage]
                            (New Ready [])))
     = Get (checkComponent
              (with_desired [Component.Storage; Component.Init; Component.Storage]
                 (New Ready []))).
Proof.
  assert (Hsame : forall c, c ∈ [Component.Init; Component.Storage]
             <-> c ∈ [Component.Storage; Component.Init; Component.Storage]).
  { intros c. rewrite !elem_of_cons, !elem_of_nil. tauto. }
  split; [exact Hsame|].
  exact (desired_order_irrelevant [Component.Init; Component.Storage]
           [Component.Storage; Component.Init; Component.Storage]
           (New Ready []) Hsame).
Defined.
